(** * Two array-search exercises: [two_sum] and [containsDuplicate]

    A shallow embedding of the two Python functions of the repository,

    - [Solution.two_sum]            (1_twoSum_python_mostEfficient.py)
    - [Solution.containsDuplicate]  (271containsDuplicatePythonMostEfficient.py)

    and the proofs of the properties their specification states.

    Python integers are unbounded, so list elements and the target are in
    [Z].  Indices produced by [range(len(arr))] are natural numbers.  The
    [dict] is a [gmap Z nat], the [set] a [gset Z].  Statements that can
    raise in Python ([arr[i]], [hashmap[k]]) are modelled with their error
    branch, and the code runs in a small state-and-exception monad over the
    objects the call can reach: the caller's list and the scratch table. *)

From stdpp Require Import gmap list.
From Stdlib Require Import ZArith Lia.

Local Open Scope Z_scope.

(** ** The Python fragment: outcomes, state and exceptions *)

Module Py.

Inductive exn : Type := IndexError | KeyError.

Inductive res (A : Type) : Type :=
| Ok (a : A)
| Raise (e : exn).
Arguments Ok {A} a.
Arguments Raise {A} e.

(** A computation over a store [St]: it yields a value or raises, and
    leaves a store behind in both cases. *)
Definition M (St A : Type) : Type := St -> res A * St.

Definition ret {St A} (a : A) : M St A := fun s => (Ok a, s).

Definition bind {St A B} (c : M St A) (k : A -> M St B) : M St B :=
  fun s =>
    match c s with
    | (Ok a, s') => k a s'
    | (Raise e, s') => (Raise e, s')
    end.

Definition raise {St A} (e : exn) : M St A := fun s => (Raise e, s).
Definition get {St} : M St St := fun s => (Ok s, s).
Definition put {St} (s : St) : M St unit := fun _ => (Ok tt, s).

(** [for x in xs: body x].  The body answers [Some v] when it executed
    [return v] and [None] when it fell through to the next iteration.
    A loop that is exhausted answers [None]: control goes on after it. *)
Fixpoint for_in {St X R} (xs : list X) (body : X -> M St (option R))
  : M St (option R) :=
  match xs with
  | [] => ret None
  | x :: xs' =>
      bind (body x) (fun r =>
        match r with
        | Some v => ret (Some v)
        | None => for_in xs' body
        end)
  end.

(** [range(n)] *)
Definition range (n : nat) : list nat := seq 0 n.

End Py.

Import Py.

Declare Scope py_scope.
Delimit Scope py_scope with py.
Notation "x <- c ;; k" := (bind c (fun x => k))
  (at level 20, c at level 99, k at level 200, only parsing) : py_scope.
Notation "c ;;; k" := (bind c (fun _ => k))
  (at level 99, k at level 200, only parsing, right associativity) : py_scope.

(** ** 1_twoSum_python_mostEfficient.py *)

Module TwoSum.

(** The objects a call of [two_sum] reaches: the list bound to [arr]
    (owned by the caller) and the table bound to [hashmap]. *)
Record frame : Type := Frame { arr : list Z; hashmap : gmap Z nat }.

(** [len(arr)] *)
Definition list_len : M frame nat :=
  (s <- get ;; ret (length (arr s)))%py.

(** [arr[i]], for [i >= 0] *)
Definition list_getitem (i : nat) : M frame Z :=
  (s <- get ;;
   match arr s !! i with
   | Some x => ret x
   | None => raise IndexError
   end)%py.

(** [hashmap = {}] *)
Definition dict_new : M frame unit :=
  (s <- get ;; put {| arr := arr s; hashmap := ∅ |})%py.

(** [k in hashmap] *)
Definition dict_contains (k : Z) : M frame bool :=
  (s <- get ;;
   ret (match hashmap s !! k with Some _ => true | None => false end))%py.

(** [hashmap[k]] *)
Definition dict_getitem (k : Z) : M frame nat :=
  (s <- get ;;
   match hashmap s !! k with
   | Some v => ret v
   | None => raise KeyError
   end)%py.

(** [hashmap[k] = v] *)
Definition dict_setitem (k : Z) (v : nat) : M frame unit :=
  (s <- get ;; put {| arr := arr s; hashmap := <[k := v]> (hashmap s) |})%py.

(** Lines 9-12, the body of the loop at index [i]. *)
Definition two_sum_body (target : Z) (i : nat) : M frame (option (list nat)) :=
  (x <- list_getitem i ;;
   let complement := target - x in
   b <- dict_contains complement ;;
   if b : bool then
     k <- dict_getitem complement ;;
     ret (Some [k; i])
   else
     y <- list_getitem i ;;
     dict_setitem y i ;;;
     ret None)%py.

(** Lines 5-12.  The answer [None] is Python's [None], returned when
    control falls off the end of the function. *)
Definition two_sum (target : Z) : M frame (option (list nat)) :=
  (dict_new ;;;
   n <- list_len ;;
   for_in (range n) (two_sum_body target))%py.

(** A call [sol.two_sum(S, t)]: the value it returns. *)
Definition find_pair (S : list Z) (t : Z) : res (option (list nat)) :=
  fst (two_sum t {| arr := S; hashmap := ∅ |}).

End TwoSum.

(** ** 271containsDuplicatePythonMostEfficient.py *)

Module ContainsDuplicate.

Record frame : Type := Frame { nums : list Z; seen : gset Z }.

(** [seen = set()] *)
Definition set_new : M frame unit :=
  (s <- get ;; put {| nums := nums s; seen := ∅ |})%py.

(** [n in seen] *)
Definition set_contains (n : Z) : M frame bool :=
  (s <- get ;; ret (bool_decide (n ∈ seen s)))%py.

(** [seen.add(n)] *)
Definition set_add (n : Z) : M frame unit :=
  (s <- get ;; put {| nums := nums s; seen := {[n]} ∪ seen s |})%py.

(** Lines 6-8, the body of the loop at element [n]. *)
Definition containsDuplicate_body (n : Z) : M frame (option bool) :=
  (b <- set_contains n ;;
   if b : bool then ret (Some true)
   else set_add n ;;; ret None)%py.

(** Lines 3-11.  The loop runs over the elements of [nums]; the body
    never writes to [nums]. *)
Definition containsDuplicate : M frame bool :=
  (set_new ;;;
   s <- get ;;
   r <- for_in (nums s) containsDuplicate_body ;;
   match r with
   | Some b => ret b
   | None => ret false
   end)%py.

(** A call [sol.containsDuplicate(S)]: the value it returns. *)
Definition has_duplicate (S : list Z) : res bool :=
  fst (containsDuplicate {| nums := S; seen := ∅ |}).

End ContainsDuplicate.

Import TwoSum ContainsDuplicate.

(** ** Vocabulary of the specification *)

(** Positions [a] and [b] of [S] hold values that add up to [t]. *)
Definition sums_to (S : list Z) (t : Z) (a b : nat) : Prop :=
  exists x y, S !! a = Some x /\ S !! b = Some y /\ x + y = t.

(** No pair of positions completes strictly before index [i]. *)
Definition no_pair_before (S : list Z) (t : Z) (i : nat) : Prop :=
  forall a b, (a < b < i)%nat -> ~ sums_to S t a b.

(** The table after [i] iterations without a return: every value seen
    among [S[0..i)] is a key, bound to the last index that holds it. *)
Definition table_inv (S : list Z) (i : nat) (m : gmap Z nat) : Prop :=
  (forall v k, m !! v = Some k ->
     (k < i)%nat /\ S !! k = Some v /\
     forall k', (k' < i)%nat -> S !! k' = Some v -> (k' <= k)%nat) /\
  (forall k v, (k < i)%nat -> S !! k = Some v -> is_Some (m !! v)).

(** What holds of an answer [[a; b]] of the scan. *)
Definition found_post (S : list Z) (t : Z) (a b : nat) : Prop :=
  (a < b < length S)%nat /\
  sums_to S t a b /\
  no_pair_before S t b /\
  (forall k x y, (k < b)%nat -> S !! k = Some x -> S !! b = Some y ->
     x + y = t -> (k <= a)%nat).

(** Two distinct positions of [S] hold the same value. *)
Definition repeats (S : list Z) : Prop :=
  exists i j x, i <> j /\ S !! i = Some x /\ S !! j = Some x.

(** ** One iteration of a [for] loop *)

Section for_in_facts.

Context {St X R : Type}.
Variable body : X -> M St (option R).

Lemma for_in_return x xs s v s' :
  body x s = (Ok (Some v), s') ->
  for_in (x :: xs) body s = (Ok (Some v), s').
Proof. intros E. cbn [for_in]. unfold bind. rewrite E. reflexivity. Qed.

Lemma for_in_next x xs s s' :
  body x s = (Ok None, s') ->
  for_in (x :: xs) body s = for_in xs body s'.
Proof. intros E. cbn [for_in]. unfold bind. rewrite E. reflexivity. Qed.

Lemma for_in_raise x xs s e s' :
  body x s = (Raise e, s') ->
  for_in (x :: xs) body s = (Raise e, s').
Proof. intros E. cbn [for_in]. unfold bind. rewrite E. reflexivity. Qed.

End for_in_facts.

(** ** Proofs about [two_sum] *)

Section two_sum_proofs.

Variable S : list Z.
Variable t : Z.

Lemma sums_to_sym a b : sums_to S t a b -> sums_to S t b a.
Proof.
  intros (x & y & Ha & Hb & Hxy). exists y, x. repeat split; auto; lia.
Qed.

Lemma sums_to_lt a b : sums_to S t a b -> (a < length S /\ b < length S)%nat.
Proof.
  intros (x & y & Ha & Hb & _).
  split; eapply lookup_lt_Some; eauto.
Qed.

(** The three ways through the loop body. *)
Lemma two_sum_body_hit m i x k :
  S !! i = Some x -> m !! (t - x) = Some k ->
  two_sum_body t i (TwoSum.Frame S m) = (Ok (Some [k; i]), TwoSum.Frame S m).
Proof.
  intros Hx Hk.
  cbv [two_sum_body bind list_getitem dict_contains dict_getitem get ret
       arr hashmap].
  rewrite Hx, Hk. cbv beta iota. rewrite Hk. reflexivity.
Qed.

Lemma two_sum_body_miss m i x :
  S !! i = Some x -> m !! (t - x) = None ->
  two_sum_body t i (TwoSum.Frame S m) = (Ok None, TwoSum.Frame S (<[x := i]> m)).
Proof.
  intros Hx Hk.
  cbv [two_sum_body bind list_getitem dict_contains dict_setitem get put ret
       arr hashmap].
  rewrite Hx, Hk, Hx. reflexivity.
Qed.

Lemma two_sum_body_out_of_range m i :
  S !! i = None ->
  two_sum_body t i (TwoSum.Frame S m) = (Raise IndexError, TwoSum.Frame S m).
Proof.
  intros Hx.
  cbv [two_sum_body bind list_getitem get raise arr].
  rewrite Hx. reflexivity.
Qed.

Lemma table_inv_empty : table_inv S 0 ∅.
Proof.
  split.
  - intros v k H. rewrite lookup_empty in H. discriminate.
  - intros k v H. lia.
Qed.

(** Storing [S[i]] at [i] re-establishes the table invariant. *)
Lemma table_inv_step m i x :
  S !! i = Some x -> table_inv S i m -> table_inv S (Datatypes.S i) (<[x := i]> m).
Proof.
  intros Hx [Hin Hcov]. split.
  - intros v k Hv. destruct (decide (x = v)) as [->|Hne].
    + rewrite lookup_insert_eq in Hv. injection Hv as <-.
      repeat split; auto; lia.
    + rewrite lookup_insert_ne in Hv by assumption.
      destruct (Hin _ _ Hv) as (Hk & Hkv & Hmax).
      repeat split; auto; try lia.
      intros k' Hk' Hk'v.
      destruct (decide (k' = i)) as [->|Hki]; [congruence|].
      apply Hmax; auto; lia.
  - intros k v Hk Hkv. destruct (decide (x = v)) as [->|Hne].
    + rewrite lookup_insert_eq. eauto.
    + rewrite lookup_insert_ne by assumption.
      destruct (decide (k = i)) as [->|Hki]; [congruence|].
      apply (Hcov k); auto; lia.
Qed.

(** A miss at [i] means no pair completes at [i]. *)
Lemma no_pair_step m i x :
  S !! i = Some x -> m !! (t - x) = None -> table_inv S i m ->
  no_pair_before S t i -> no_pair_before S t (Datatypes.S i).
Proof.
  intros Hx Hmiss [_ Hcov] Hno a b Hab Hsum.
  destruct (decide (b = i)) as [->|Hbi].
  - destruct Hsum as (xa & xb & Ha & Hb & Hxy).
    assert (xb = x) by congruence. subst xb.
    assert (xa = t - x) by lia. subst xa.
    destruct (Hcov a (t - x)) as [k Hk]; [lia|assumption|]. congruence.
  - apply (Hno a b); [lia|assumption].
Qed.

(** The loop, from any index [i] where the invariants hold. *)
Lemma for_in_two_sum n : forall i m,
  (i + n = length S)%nat -> table_inv S i m -> no_pair_before S t i ->
  exists m',
    (for_in (seq i n) (two_sum_body t) (TwoSum.Frame S m)
       = (Ok None, TwoSum.Frame S m')
     /\ no_pair_before S t (length S))
    \/
    (exists a b,
       for_in (seq i n) (two_sum_body t) (TwoSum.Frame S m)
         = (Ok (Some [a; b]), TwoSum.Frame S m')
       /\ found_post S t a b).
Proof.
  induction n as [|n IH]; intros i m Hlen Hinv Hno.
  - exists m. left. split; [reflexivity|].
    replace (length S) with i by lia. assumption.
  - destruct (lookup_lt_is_Some_2 S i) as [x Hx]; [lia|].
    cbn [seq].
    destruct (m !! (t - x)) as [k|] eqn:Hk.
    + rewrite (for_in_return _ _ _ _ _ _ (two_sum_body_hit m i x k Hx Hk)).
      exists m. right. exists k, i. split; [reflexivity|].
      destruct Hinv as [Hin _]. destruct (Hin _ _ Hk) as (Hki & Hkv & Hmax).
      repeat split; try lia; auto.
      * exists (t - x), x. repeat split; auto; lia.
      * intros k' x' y Hk' Hx' Hy Hxy.
        assert (y = x) by congruence. subst y.
        apply Hmax; [assumption|]. rewrite Hx'. f_equal. lia.
    + setoid_rewrite (for_in_next _ _ _ _ _ (two_sum_body_miss m i x Hx Hk)).
      apply IH; [lia| |].
      * apply table_inv_step; assumption.
      * eapply no_pair_step; eassumption.
Qed.

(** [two_sum] from any store whose list is [S]: either it falls off the
    end and no pair exists, or it returns a pair with [found_post].  The
    list is handed back as it was. *)
Lemma two_sum_spec m0 :
  exists m',
    (two_sum t (TwoSum.Frame S m0) = (Ok None, TwoSum.Frame S m')
     /\ no_pair_before S t (length S))
    \/
    (exists a b,
       two_sum t (TwoSum.Frame S m0) = (Ok (Some [a; b]), TwoSum.Frame S m')
       /\ found_post S t a b).
Proof.
  unfold two_sum, dict_new, list_len, range, bind, get, put, ret. simpl.
  apply for_in_two_sum; [lia|apply table_inv_empty|].
  intros a b Hab. lia.
Qed.

Lemma find_pair_spec :
  (find_pair S t = Ok None /\ no_pair_before S t (length S))
  \/ (exists a b, find_pair S t = Ok (Some [a; b]) /\ found_post S t a b).
Proof.
  unfold find_pair.
  destruct (two_sum_spec ∅) as [m' [[E H]|(a & b & E & H)]]; rewrite E.
  - left. auto.
  - right. exists a, b. auto.
Qed.

End two_sum_proofs.

(** ** Proofs about [containsDuplicate] *)

Section containsDuplicate_proofs.

Variable S : list Z.

(** The two ways through the loop body. *)
Lemma containsDuplicate_body_hit s n :
  n ∈ s ->
  containsDuplicate_body n (ContainsDuplicate.Frame S s)
    = (Ok (Some true), ContainsDuplicate.Frame S s).
Proof.
  intros Hn.
  cbv [containsDuplicate_body bind set_contains get ret seen].
  rewrite bool_decide_eq_true_2 by assumption. reflexivity.
Qed.

Lemma containsDuplicate_body_miss s n :
  n ∉ s ->
  containsDuplicate_body n (ContainsDuplicate.Frame S s)
    = (Ok None, ContainsDuplicate.Frame S ({[n]} ∪ s)).
Proof.
  intros Hn.
  cbv [containsDuplicate_body bind set_contains set_add get put ret seen nums].
  rewrite bool_decide_eq_false_2 by assumption. reflexivity.
Qed.

(** The loop over a suffix [l], entered with [s] as the set of values
    seen: it returns [True] exactly when [l] meets [s] or repeats a
    value. *)
Lemma for_in_containsDuplicate (l : list Z) : forall s : gset Z,
  exists s',
    (for_in l containsDuplicate_body (ContainsDuplicate.Frame S s)
       = (Ok (Some true), ContainsDuplicate.Frame S s')
     /\ ~ (NoDup l /\ forall x, x ∈ l -> x ∉ s))
    \/
    (for_in l containsDuplicate_body (ContainsDuplicate.Frame S s)
       = (Ok None, ContainsDuplicate.Frame S s')
     /\ NoDup l /\ forall x, x ∈ l -> x ∉ s).
Proof.
  induction l as [|n l IH]; intros s.
  - exists s. right. split; [reflexivity|]. split; [constructor|].
    intros x Hx. inversion Hx.
  - destruct (decide (n ∈ s)) as [Hin|Hout].
    + exists s. left.
      rewrite (for_in_return _ _ _ _ _ _ (containsDuplicate_body_hit s n Hin)).
      split; [reflexivity|]. intros [_ H]. apply (H n); [left|assumption].
    + setoid_rewrite (for_in_next _ _ _ _ _ (containsDuplicate_body_miss s n Hout)).
      destruct (IH ({[n]} ∪ s)) as [s' [[E H]|(E & Hnd & Hfresh)]];
        exists s'; [left|right]; (split; [exact E|]).
      * intros [Hnd Hfresh]. apply H. apply NoDup_cons in Hnd as [Hn Hnd].
        split; [assumption|]. intros x Hx Hxs.
        apply elem_of_union in Hxs as [Hxn|Hxs].
        -- apply elem_of_singleton in Hxn. subst x. contradiction.
        -- apply (Hfresh x); [right|]; assumption.
      * split.
        -- apply NoDup_cons. split; [|assumption].
           intros Hn. apply (Hfresh n Hn). apply elem_of_union_l.
           apply elem_of_singleton. reflexivity.
        -- intros x Hx Hxs. apply elem_of_cons in Hx as [->|Hx];
             [contradiction|].
           apply (Hfresh x Hx). apply elem_of_union_r. assumption.
Qed.

(** [containsDuplicate] from any store whose list is [S]. *)
Lemma containsDuplicate_spec s0 :
  exists s',
    (containsDuplicate (ContainsDuplicate.Frame S s0)
       = (Ok true, ContainsDuplicate.Frame S s') /\ ~ NoDup S)
    \/
    (containsDuplicate (ContainsDuplicate.Frame S s0)
       = (Ok false, ContainsDuplicate.Frame S s') /\ NoDup S).
Proof.
  destruct (for_in_containsDuplicate S ∅) as [s' [[E H]|(E & Hnd & _)]];
    exists s'; [left|right];
    (split; [cbv [containsDuplicate bind set_new get put ret nums];
             rewrite E; reflexivity|]).
  - intros Hnd. apply H. split; [assumption|].
    intros x _. apply not_elem_of_empty.
  - assumption.
Qed.

Lemma has_duplicate_spec :
  (has_duplicate S = Ok true /\ ~ NoDup S)
  \/ (has_duplicate S = Ok false /\ NoDup S).
Proof.
  unfold has_duplicate.
  destruct (containsDuplicate_spec ∅) as [s' [[E H]|[E H]]]; rewrite E; auto.
Qed.

End containsDuplicate_proofs.

(** A list without [NoDup] has a value at two distinct positions. *)
Lemma repeats_of_not_NoDup (l : list Z) : ~ NoDup l -> repeats l.
Proof.
  induction l as [|x l IH]; intros Hnd.
  - destruct Hnd. constructor.
  - destruct (decide (x ∈ l)) as [Hin|Hout].
    + apply list_elem_of_lookup in Hin as [j Hj].
      exists 0%nat, (Datatypes.S j), x. repeat split; auto.
    + destruct IH as (i & j & y & Hij & Hi & Hj).
      * intros H. apply Hnd. apply NoDup_cons. auto.
      * exists (Datatypes.S i), (Datatypes.S j), y. repeat split; auto.
Qed.

Lemma not_NoDup_of_repeats (l : list Z) : repeats l -> ~ NoDup l.
Proof.
  intros (i & j & x & Hij & Hi & Hj) Hnd.
  apply Hij. eapply NoDup_lookup; eassumption.
Qed.

(** ** The properties of the specification *)

(** C1.  If [find_pair S t] returns the pair [(i, j)], then [i <> j],
    [0 <= i < j < len(S)] and [S[i] + S[j] = t]: the same index is never
    returned twice. *)
Theorem find_pair_sound (S : list Z) (t : Z) (i j : nat) :
  find_pair S t = Ok (Some [i; j]) ->
  i <> j /\ (0 <= i < j)%nat /\ (j < length S)%nat /\
  exists x y, S !! i = Some x /\ S !! j = Some y /\ x + y = t.
Proof.
  intros E.
  destruct (find_pair_spec S t) as [[E' _]|(a & b & E' & Hlt & Hsum & _)];
    rewrite E' in E; [discriminate|].
  injection E as -> ->.
  repeat split; try lia. exact Hsum.
Qed.

Lemma find_pair_sound_witness :
  find_pair [1; 2; 3; 4; 5] 9 = Ok (Some [3; 4]%nat) /\
  (3%nat <> 4%nat /\ (0 <= 3 < 4)%nat /\ (4 < length [1; 2; 3; 4; 5])%nat /\
   exists x y, [1; 2; 3; 4; 5] !! 3%nat = Some x /\
               [1; 2; 3; 4; 5] !! 4%nat = Some y /\ x + y = 9).
Proof.
  split; [reflexivity|].
  apply (find_pair_sound [1; 2; 3; 4; 5] 9 3 4). reflexivity.
Defined.

(** C2.  [has_duplicate S] returns true if and only if two distinct
    indices of [S] hold the same value (and false if and only if none
    do). *)
Theorem has_duplicate_iff_repeats (S : list Z) :
  (has_duplicate S = Ok true <-> repeats S) /\
  (has_duplicate S = Ok false <-> ~ repeats S).
Proof.
  destruct (has_duplicate_spec S) as [[E H]|[E H]]; rewrite E.
  - split; split.
    + intros _. apply repeats_of_not_NoDup. assumption.
    + reflexivity.
    + discriminate.
    + intros Hr. destruct Hr. apply repeats_of_not_NoDup. assumption.
  - split; split.
    + discriminate.
    + intros Hr. destruct (not_NoDup_of_repeats S Hr H).
    + intros _ Hr. exact (not_NoDup_of_repeats S Hr H).
    + reflexivity.
Qed.

(** C3.  If no two distinct positions of [S] hold values summing to [t],
    [find_pair S t] returns the not-found outcome, a normal result; in
    particular [find_pair [] t] is not-found for every [t]. *)
Theorem find_pair_not_found :
  (forall (S : list Z) (t : Z),
     (forall a b, a <> b -> ~ sums_to S t a b) -> find_pair S t = Ok None) /\
  (forall t : Z, find_pair [] t = Ok None).
Proof.
  split.
  - intros S t Hno.
    destruct (find_pair_spec S t) as [[E _]|(a & b & _ & Hlt & Hsum & _)];
      [exact E|].
    destruct (Hno a b); [lia|assumption].
  - intros t. reflexivity.
Qed.

Lemma find_pair_not_found_witness :
  (forall a b, a <> b -> ~ sums_to [1; 2; 4] 8 a b) /\
  find_pair [1; 2; 4] 8 = Ok None.
Proof.
  assert (H : forall a b, a <> b -> ~ sums_to [1; 2; 4] 8 a b).
  { intros a b Hab (x & y & Ha & Hb & Hxy).
    destruct a as [|[|[|a]]]; destruct b as [|[|[|b]]];
      simpl in Ha, Hb; try discriminate;
      injection Ha as <-; injection Hb as <-; try lia. }
  split; [exact H|].
  exact (proj1 find_pair_not_found [1; 2; 4] 8 H).
Defined.

(** C4.  When a valid pair exists, [find_pair S t] returns the
    earliest-completing one: its second index [j] is the smallest index at
    which any valid pair completes, and its first index [i] is the most
    recent index before [j] that holds the complement [t - S[j]]. *)
Theorem find_pair_earliest (S : list Z) (t : Z) :
  (exists a b, a <> b /\ sums_to S t a b) ->
  exists i j y,
    find_pair S t = Ok (Some [i; j]) /\
    (forall a b, a <> b -> sums_to S t a b -> (j <= Nat.max a b)%nat) /\
    (i < j)%nat /\ S !! j = Some y /\ S !! i = Some (t - y) /\
    (forall k, (k < j)%nat -> S !! k = Some (t - y) -> (k <= i)%nat).
Proof.
  intros (a0 & b0 & Hne & Hsum0).
  destruct (find_pair_spec S t)
    as [[_ Hno]|(i & j & E & Hlt & (x & y & Hi & Hj & Hxy) & Hno & Hlast)].
  - destruct (sums_to_lt S t _ _ Hsum0) as [Ha Hb].
    destruct (Nat.lt_total a0 b0) as [Hab|[Hab|Hab]]; [|contradiction|].
    + destruct (Hno a0 b0); [lia|assumption].
    + destruct (Hno b0 a0); [lia|apply sums_to_sym; assumption].
  - exists i, j, y. split; [exact E|].
    split; [|split; [lia|split; [exact Hj|split]]].
    + intros a b Hab Hsum.
      destruct (Nat.lt_total a b) as [Hlt'|[Heq|Hlt']]; [|contradiction|].
      * destruct (Nat.le_gt_cases j b) as [Hle|Hgt]; [lia|].
        destruct (Hno a b); [lia|assumption].
      * destruct (Nat.le_gt_cases j a) as [Hle|Hgt]; [lia|].
        destruct (Hno b a); [lia|apply sums_to_sym; assumption].
    + rewrite Hi. f_equal. lia.
    + intros k Hk Hkv. apply (Hlast k (t - y) y); auto. lia.
Qed.

Lemma find_pair_earliest_witness :
  (exists a b, a <> b /\ sums_to [1; 1; 3; 3] 4 a b) /\
  exists i j y,
    find_pair [1; 1; 3; 3] 4 = Ok (Some [i; j]) /\
    (forall a b, a <> b -> sums_to [1; 1; 3; 3] 4 a b -> (j <= Nat.max a b)%nat) /\
    (i < j)%nat /\ [1; 1; 3; 3] !! j = Some y /\
    [1; 1; 3; 3] !! i = Some (4 - y) /\
    (forall k, (k < j)%nat -> [1; 1; 3; 3] !! k = Some (4 - y) -> (k <= i)%nat).
Proof.
  assert (H : exists a b, a <> b /\ sums_to [1; 1; 3; 3] 4 a b).
  { exists 0%nat, 3%nat. split; [lia|]. exists 1, 3. repeat split. }
  split; [exact H|].
  exact (find_pair_earliest [1; 1; 3; 3] 4 H).
Defined.

(** The pair returned on [[1; 1; 3; 3]] with target 4 uses the later of
    the two positions holding 1. *)
Example find_pair_most_recent :
  find_pair [1; 1; 3; 3] 4 = Ok (Some [1; 2]%nat).
Proof. reflexivity. Qed.

(** C5.  Neither function raises on any integer list, the empty one
    included: from every store each call ends with a value of the
    declared shape ([None] or a two-element index list; a boolean), and
    no [Raise] outcome is reachable. *)
Theorem two_sum_containsDuplicate_total :
  (forall (fr : TwoSum.frame) (t : Z),
     exists fr',
       two_sum t fr = (Ok None, fr') \/
       exists i j, two_sum t fr = (Ok (Some [i; j]), fr')) /\
  (forall fr : ContainsDuplicate.frame,
     exists b fr', containsDuplicate fr = (Ok b, fr')) /\
  (forall (S : list Z) (t : Z) (e : exn), find_pair S t <> Raise e) /\
  (forall (S : list Z) (e : exn), has_duplicate S <> Raise e) /\
  (forall t : Z, find_pair [] t = Ok None) /\
  has_duplicate [] = Ok false.
Proof.
  repeat split.
  - intros [S m0] t.
    destruct (two_sum_spec S t m0) as [m' [[E _]|(a & b & E & _)]];
      eexists; rewrite E; eauto.
  - intros [S s0].
    destruct (containsDuplicate_spec S s0) as [s' [[E _]|[E _]]];
      rewrite E; eauto.
  - intros S t e.
    destruct (find_pair_spec S t) as [[E _]|(a & b & E & _)];
      rewrite E; discriminate.
  - intros S e.
    destruct (has_duplicate_spec S) as [[E _]|[E _]]; rewrite E; discriminate.
Qed.

(** C6.  With [target = 2 * v], a reported pair that involves the value
    [v] uses two distinct positions that both hold [v]; a value that
    occurs at one position only is never paired with itself;
    [find_pair [5; 5] 10] returns [(0, 1)]. *)
Theorem find_pair_double :
  (forall (S : list Z) (v : Z) (i j : nat),
     find_pair S (2 * v) = Ok (Some [i; j]) ->
     S !! i = Some v \/ S !! j = Some v ->
     i <> j /\ S !! i = Some v /\ S !! j = Some v) /\
  (forall (S : list Z) (v : Z) (i j : nat),
     (forall p q, S !! p = Some v -> S !! q = Some v -> p = q) ->
     find_pair S (2 * v) = Ok (Some [i; j]) ->
     S !! i <> Some v /\ S !! j <> Some v) /\
  (forall v : Z, find_pair [v] (2 * v) = Ok None) /\
  find_pair [5; 5] 10 = Ok (Some [0; 1]%nat).
Proof.
  assert (Hboth : forall (S : list Z) (v : Z) (i j : nat),
     find_pair S (2 * v) = Ok (Some [i; j]) ->
     S !! i = Some v \/ S !! j = Some v ->
     i <> j /\ S !! i = Some v /\ S !! j = Some v).
  { intros S v i j E Hv.
    destruct (find_pair_spec S (2 * v))
      as [[E' _]|(a & b & E' & Hlt & (x & y & Hi & Hj & Hxy) & _)];
      rewrite E' in E; [discriminate|].
    injection E as -> ->.
    split; [lia|].
    assert (x = v /\ y = v) as [-> ->].
    { destruct Hv as [Hv|Hv]; rewrite Hv in *.
      - injection Hi as <-. lia.
      - injection Hj as <-. lia. }
    auto. }
  split; [exact Hboth|]. split; [|split].
  - intros S v i j Honce E.
    split; intros Hv;
      destruct (Hboth S v i j E) as (Hne & Hi & Hj); auto;
      apply Hne; apply Honce; assumption.
  - intros v.
    destruct (find_pair_spec [v] (2 * v)) as [[E _]|(a & b & _ & Hlt & _)];
      [exact E|].
    simpl in Hlt. lia.
  - reflexivity.
Qed.

Lemma find_pair_double_witness :
  find_pair [5; 5] (2 * 5) = Ok (Some [0; 1]%nat) /\
  ([5; 5] !! 0%nat = Some 5 \/ [5; 5] !! 1%nat = Some 5) /\
  (0%nat <> 1%nat /\ [5; 5] !! 0%nat = Some 5 /\ [5; 5] !! 1%nat = Some 5).
Proof.
  split; [reflexivity|]. split; [left; reflexivity|].
  apply (proj1 find_pair_double [5; 5] 5 0%nat 1%nat);
    [reflexivity | left; reflexivity].
Defined.

(** C7.  [has_duplicate] of the empty list returns false. *)
Theorem has_duplicate_empty : has_duplicate [] = Ok false.
Proof. reflexivity. Qed.

(** C8.  Both functions are pure: from whatever store a call starts in
    (whatever an earlier call left in the scratch table), it returns the
    value that depends on the list (and target) only, hands the list back
    unchanged, and a second call in the store it leaves behind returns the
    same value again. *)
Theorem two_sum_containsDuplicate_pure :
  (forall (S : list Z) (t : Z) (m0 : gmap Z nat),
     exists m',
       two_sum t (TwoSum.Frame S m0) = (find_pair S t, TwoSum.Frame S m') /\
       fst (two_sum t (TwoSum.Frame S m')) = find_pair S t) /\
  (forall (S : list Z) (s0 : gset Z),
     exists s',
       containsDuplicate (ContainsDuplicate.Frame S s0)
         = (has_duplicate S, ContainsDuplicate.Frame S s') /\
       fst (containsDuplicate (ContainsDuplicate.Frame S s')) = has_duplicate S).
Proof.
  split.
  - intros S t m0.
    assert (Hreset : forall m, two_sum t (TwoSum.Frame S m)
                               = two_sum t (TwoSum.Frame S ∅))
      by reflexivity.
    unfold find_pair.
    destruct (two_sum_spec S t m0) as [m' [[E _]|(a & b & E & _)]];
      exists m'; rewrite (Hreset m'), <- (Hreset m0), E; auto.
  - intros S s0.
    assert (Hreset : forall s, containsDuplicate (ContainsDuplicate.Frame S s)
                               = containsDuplicate (ContainsDuplicate.Frame S ∅))
      by reflexivity.
    unfold has_duplicate.
    destruct (containsDuplicate_spec S s0) as [s' [[E _]|[E _]]];
      exists s'; rewrite (Hreset s'), <- (Hreset s0), E; auto.
Qed.

(** C9.  [find_pair [1; 2; 3; 4; 5] 9] returns the index pair [(3, 4)],
    whose values are 4 and 5. *)
Theorem find_pair_demo :
  find_pair [1; 2; 3; 4; 5] 9 = Ok (Some [3; 4]%nat) /\
  [1; 2; 3; 4; 5] !! 3%nat = Some 4 /\
  [1; 2; 3; 4; 5] !! 4%nat = Some 5.
Proof. repeat split. Qed.

(** C10.  [has_duplicate] is invariant under permutation of its input. *)
Theorem has_duplicate_permutation (S S' : list Z) :
  S ≡ₚ S' -> has_duplicate S' = has_duplicate S.
Proof.
  intros Hperm.
  destruct (has_duplicate_spec S) as [[E H]|[E H]];
    destruct (has_duplicate_spec S') as [[E' H']|[E' H']];
    rewrite E, E'; try reflexivity.
  - destruct H. rewrite Hperm. assumption.
  - destruct H'. rewrite <- Hperm. assumption.
Qed.

Lemma has_duplicate_permutation_witness :
  [1; 2; 1] ≡ₚ [2; 1; 1] /\
  has_duplicate [2; 1; 1] = has_duplicate [1; 2; 1].
Proof.
  assert (H : [1; 2; 1] ≡ₚ [2; 1; 1]) by apply perm_swap.
  split; [exact H|].
  exact (has_duplicate_permutation [1; 2; 1] [2; 1; 1] H).
Defined.

(** The demonstration call of the second file, and a list without
    repetition. *)
Example has_duplicate_demo : has_duplicate [1; 2; 3; 4; 1] = Ok true.
Proof. reflexivity. Qed.

Example has_duplicate_distinct : has_duplicate [1; 2; 3] = Ok false.
Proof. reflexivity. Qed.

(** ** The answer of [two_sum] is determined by [found_post] *)

Section two_sum_more.

(** An answer is determined by [found_post]. *)
Lemma found_post_unique (S : list Z) (t : Z) (a b a' b' : nat) :
  found_post S t a b -> found_post S t a' b' -> a = a' /\ b = b'.
Proof.
  intros (Hlt & Hsum & Hno & Hlast) (Hlt' & Hsum' & Hno' & Hlast').
  assert (b = b') as <-.
  { destruct (Nat.lt_total b b') as [H|[H|H]]; [|exact H|].
    - destruct (Hno' a b); [lia|assumption].
    - destruct (Hno a' b'); [lia|assumption]. }
  split; [|reflexivity].
  destruct Hsum as (x & y & Ha & Hb & Hxy).
  destruct Hsum' as (x' & y' & Ha' & Hb' & Hxy').
  assert (a' <= a)%nat by (apply (Hlast a' x' y'); auto; lia).
  assert (a <= a')%nat by (apply (Hlast' a x y); auto; lia).
  lia.
Qed.

(** [found_post] only looks at the positions up to the second index. *)
Lemma found_post_prefix (S S' : list Z) (t : Z) (a b : nat) :
  (forall k, (k <= b)%nat -> S' !! k = S !! k) ->
  found_post S t a b -> found_post S' t a b.
Proof.
  intros Hagree (Hlt & (x & y & Ha & Hb & Hxy) & Hno & Hlast).
  assert (Hb' : S' !! b = Some y) by (rewrite Hagree; [assumption|lia]).
  split; [|split; [|split]].
  - split; [lia|]. eapply lookup_lt_Some; eassumption.
  - exists x, y. rewrite Hagree by lia. auto.
  - intros a1 b1 Hab (x1 & y1 & Ha1 & Hb1 & Hxy1).
    apply (Hno a1 b1 Hab). exists x1, y1.
    rewrite <- !Hagree by lia. auto.
  - intros k x1 y1 Hk Hkx Hby Hsum.
    apply (Hlast k x1 y1); auto; rewrite <- Hagree by lia; assumption.
Qed.

Lemma find_pair_of_found_post (S : list Z) (t : Z) (a b : nat) :
  found_post S t a b -> find_pair S t = Ok (Some [a; b]).
Proof.
  intros Hpost.
  destruct (find_pair_spec S t) as [[_ Hno]|(a' & b' & E & Hpost')].
  - destruct Hpost as (Hlt & Hsum & _). destruct (Hno a b Hlt Hsum).
  - destruct (found_post_unique S t a b a' b' Hpost Hpost') as [-> ->].
    exact E.
Qed.

Lemma found_post_of_find_pair (S : list Z) (t : Z) (a b : nat) :
  find_pair S t = Ok (Some [a; b]) -> found_post S t a b.
Proof.
  intros E.
  destruct (find_pair_spec S t) as [[E' _]|(a' & b' & E' & Hpost)];
    rewrite E' in E; [discriminate|].
  injection E as <- <-. exact Hpost.
Qed.

Lemma find_pair_none_of_no_pair (S : list Z) (t : Z) :
  (forall a b, (a < b)%nat -> ~ sums_to S t a b) -> find_pair S t = Ok None.
Proof.
  intros Hno.
  destruct (find_pair_spec S t) as [[E _]|(a & b & _ & Hlt & Hsum & _)];
    [exact E|].
  destruct (Hno a b); [lia|assumption].
Qed.

(** Mapping a list carries lookups along. *)
Lemma sums_to_fmap (f : Z -> Z) (S : list Z) (t t' : Z) (a b : nat) :
  (forall x y, f x + f y = t' <-> x + y = t) ->
  sums_to (f <$> S) t' a b <-> sums_to S t a b.
Proof.
  intros Hf. split.
  - intros (x' & y' & Ha & Hb & Hxy).
    apply list_lookup_fmap_Some_1 in Ha as (x & -> & Ha).
    apply list_lookup_fmap_Some_1 in Hb as (y & -> & Hb).
    exists x, y. repeat split; auto. apply Hf. assumption.
  - intros (x & y & Ha & Hb & Hxy).
    exists (f x), (f y). rewrite !list_lookup_fmap, Ha, Hb.
    repeat split. apply Hf. assumption.
Qed.

Lemma found_post_fmap (f : Z -> Z) (S : list Z) (t t' : Z) (a b : nat) :
  (forall x y, f x + f y = t' <-> x + y = t) ->
  found_post S t a b -> found_post (f <$> S) t' a b.
Proof.
  intros Hf (Hlt & Hsum & Hno & Hlast).
  split; [|split; [|split]].
  - rewrite length_fmap. exact Hlt.
  - apply (sums_to_fmap f S t t'); assumption.
  - intros a1 b1 Hab Hs. apply (Hno a1 b1 Hab).
    apply (sums_to_fmap f S t t' a1 b1 Hf). assumption.
  - intros k x' y' Hk Hkx Hby Hxy.
    apply list_lookup_fmap_Some_1 in Hkx as (x & -> & Hkx).
    apply list_lookup_fmap_Some_1 in Hby as (y & -> & Hby).
    apply (Hlast k x y); auto. apply Hf. assumption.
Qed.

End two_sum_more.

(** ** The scratch table of [two_sum] *)

Lemma size_list_to_set_le (l : list Z) :
  (size (list_to_set l : gset Z) <= length l)%nat.
Proof.
  induction l as [|x l IH]; [rewrite list_to_set_nil, size_empty; lia|].
  rewrite list_to_set_cons, size_union_alt, size_singleton. simpl.
  assert (size (list_to_set l ∖ {[x]} : gset Z) <= size (list_to_set l : gset Z))%nat
    by (apply subseteq_size, subseteq_difference_l; reflexivity).
  lia.
Qed.

(** Under the table invariant the keys are the values scanned so far. *)
Lemma table_inv_dom (S : list Z) (i : nat) (m : gmap Z nat) :
  table_inv S i m -> dom m = list_to_set (take i S).
Proof.
  intros [Hin Hcov]. apply set_eq. intros v.
  rewrite elem_of_dom, elem_of_list_to_set, elem_of_take. split.
  - intros [k Hk]. destruct (Hin v k Hk) as (Hlt & Hkv & _). eauto.
  - intros (k & Hkv & Hlt). eapply Hcov; eassumption.
Qed.

Lemma table_inv_size (S : list Z) (i : nat) (m : gmap Z nat) :
  table_inv S i m -> (size m <= i)%nat.
Proof.
  intros Hinv. rewrite <- size_dom, (table_inv_dom S i m Hinv).
  pose proof (size_list_to_set_le (take i S)) as H.
  rewrite length_take in H. lia.
Qed.

(** The loop again, now with the store it leaves behind: the table is the
    one of the prefix scanned before the [return], or of the whole list. *)
Lemma for_in_two_sum_table (S : list Z) (t : Z) (n : nat) : forall i m r fr',
  (i + n = length S)%nat -> table_inv S i m ->
  for_in (seq i n) (two_sum_body t) (TwoSum.Frame S m) = (r, fr') ->
  arr fr' = S /\
  exists b, (i <= b <= length S)%nat /\
    (r = Ok None /\ b = length S \/ exists a, r = Ok (Some [a; b])) /\
    table_inv S b (hashmap fr').
Proof.
  induction n as [|n IH]; intros i m r fr' Hlen Hinv E.
  - injection E as <- <-. split; [reflexivity|].
    exists i. split; [lia|]. split; [left; split; [reflexivity|lia]|].
    exact Hinv.
  - destruct (lookup_lt_is_Some_2 S i) as [x Hx]; [lia|].
    cbn [seq] in E.
    destruct (m !! (t - x)) as [k|] eqn:Hk.
    + rewrite (for_in_return _ _ _ _ _ _ (two_sum_body_hit S t m i x k Hx Hk)) in E.
      injection E as <- <-. split; [reflexivity|].
      exists i. split; [lia|]. split; [right; exists k; reflexivity|].
      exact Hinv.
    + rewrite (for_in_next _ _ _ _ _ (two_sum_body_miss S t m i x Hx Hk)) in E.
      destruct (IH (Datatypes.S i) (<[x := i]> m) r fr') as (Harr & b & Hb & Hr & Ht);
        [lia|apply table_inv_step; assumption|exact E|].
      split; [exact Harr|]. exists b. split; [lia|]. auto.
Qed.

(** ** Further properties of [two_sum] *)

(** X1.  [find_pair S t] returns [[a; b]] exactly when [a < b < len(S)],
    [S[a] + S[b] = t], no pair of positions completes before [b], and [a]
    is the last position before [b] whose value completes [S[b]]. *)
Theorem find_pair_characterisation (S : list Z) (t : Z) (a b : nat) :
  find_pair S t = Ok (Some [a; b]) <-> found_post S t a b.
Proof.
  split; [apply found_post_of_find_pair|apply find_pair_of_found_post].
Qed.

(** X2.  [find_pair S t] returns [None] exactly when no two distinct
    positions of [S] hold values that add up to [t]. *)
Theorem find_pair_none_iff (S : list Z) (t : Z) :
  find_pair S t = Ok None <-> (forall a b, a <> b -> ~ sums_to S t a b).
Proof.
  split.
  - intros E a b Hab Hsum.
    destruct (find_pair_spec S t) as [[_ Hno]|(a' & b' & E' & _)];
      [|rewrite E' in E; discriminate].
    destruct (sums_to_lt S t a b Hsum) as [Ha Hb].
    destruct (Nat.lt_total a b) as [H|[H|H]]; [|contradiction|].
    + destruct (Hno a b); [lia|assumption].
    + destruct (Hno b a); [lia|apply sums_to_sym; assumption].
  - intros Hno. apply find_pair_none_of_no_pair.
    intros a b Hab. apply Hno. lia.
Qed.

(** X3.  When exactly one pair of positions [a < b] adds up to the target
    (the precondition of the exercise), [find_pair] returns that pair. *)
Theorem find_pair_unique_solution (S : list Z) (t : Z) (a b : nat) :
  (a < b)%nat -> sums_to S t a b ->
  (forall a' b', (a' < b')%nat -> sums_to S t a' b' -> a' = a /\ b' = b) ->
  find_pair S t = Ok (Some [a; b]).
Proof.
  intros Hab Hsum Huniq.
  destruct (find_pair_spec S t) as [[_ Hno]|(a' & b' & E & Hlt & Hsum' & _)].
  - destruct (sums_to_lt S t a b Hsum) as [_ Hb].
    destruct (Hno a b); [lia|assumption].
  - destruct (Huniq a' b') as [-> ->]; [lia|assumption|exact E].
Qed.

Lemma find_pair_unique_solution_witness :
  (0 < 1)%nat /\ sums_to [2; 7; 11; 15] 9 0 1 /\
  (forall a' b', (a' < b')%nat -> sums_to [2; 7; 11; 15] 9 a' b' ->
     a' = 0%nat /\ b' = 1%nat) /\
  find_pair [2; 7; 11; 15] 9 = Ok (Some [0; 1]%nat).
Proof.
  assert (H1 : (0 < 1)%nat) by lia.
  assert (H2 : sums_to [2; 7; 11; 15] 9 0 1).
  { exists 2, 7. repeat split. }
  assert (H3 : forall a' b', (a' < b')%nat ->
             sums_to [2; 7; 11; 15] 9 a' b' -> a' = 0%nat /\ b' = 1%nat).
  { intros a' b' Hlt (x & y & Ha & Hb & Hxy).
    destruct a' as [|[|[|[|a']]]]; destruct b' as [|[|[|[|b']]]];
      simpl in Ha, Hb; try discriminate;
      injection Ha as <-; injection Hb as <-; lia. }
  split; [exact H1|]. split; [exact H2|]. split; [exact H3|].
  exact (find_pair_unique_solution [2; 7; 11; 15] 9 0 1 H1 H2 H3).
Defined.

(** X4.  The answer [[a; b]] depends on the elements at positions
    [0 .. b] only: every list with the same first [b + 1] elements gets
    the same answer, so nothing after the second index is consulted. *)
Theorem find_pair_prefix (S S' : list Z) (t : Z) (a b : nat) :
  find_pair S t = Ok (Some [a; b]) ->
  take (Datatypes.S b) S' = take (Datatypes.S b) S ->
  find_pair S' t = Ok (Some [a; b]).
Proof.
  intros E Htake.
  apply find_pair_of_found_post.
  apply (found_post_prefix S S' t a b); [|apply found_post_of_find_pair, E].
  intros k Hk.
  rewrite <- (lookup_take_lt S' (Datatypes.S b) k) by lia.
  rewrite <- (lookup_take_lt S (Datatypes.S b) k) by lia.
  rewrite Htake. reflexivity.
Qed.

Lemma find_pair_prefix_witness :
  find_pair [1; 2; 3; 4; 5] 5 = Ok (Some [1; 2]%nat) /\
  take 3 [1; 2; 3; 100] = take 3 [1; 2; 3; 4; 5] /\
  find_pair [1; 2; 3; 100] 5 = Ok (Some [1; 2]%nat).
Proof.
  split; [reflexivity|]. split; [reflexivity|].
  apply (find_pair_prefix [1; 2; 3; 4; 5] [1; 2; 3; 100] 5 1 2); reflexivity.
Defined.

(** Appending elements to a list that has an answer keeps the answer. *)
Corollary find_pair_app (S T : list Z) (t : Z) (a b : nat) :
  find_pair S t = Ok (Some [a; b]) ->
  find_pair (S ++ T) t = Ok (Some [a; b]).
Proof.
  intros E. apply find_pair_of_found_post.
  pose proof (found_post_of_find_pair S t a b E) as Hpost.
  apply (found_post_prefix S (S ++ T) t a b); [|exact Hpost].
  intros k Hk. apply lookup_app_l.
  destruct Hpost as (Hlt & _). lia.
Qed.

(** Values enter the scan only through the test "these two add up to
    the target". *)
Lemma find_pair_fmap_sum (f : Z -> Z) (S : list Z) (t t' : Z) :
  (forall x y, f x + f y = t' <-> x + y = t) ->
  find_pair (f <$> S) t' = find_pair S t.
Proof.
  intros Hf.
  destruct (find_pair_spec S t) as [[E Hno]|(a & b & E & Hpost)]; rewrite E.
  - apply find_pair_none_of_no_pair.
    intros a b Hab Hsum.
    apply (sums_to_fmap f S t t' a b Hf) in Hsum.
    destruct (sums_to_lt S t a b Hsum) as [_ Hb].
    destruct (Hno a b); [lia|assumption].
  - apply find_pair_of_found_post, (found_post_fmap f S t t'); assumption.
Qed.

(** X5.  [find_pair] sees the values only through the relation
    "these two add up to the target": if [f] maps exactly the pairs of
    sum [t] to the pairs of sum [t'], the answer on [map f S] with target
    [t'] is the answer on [S] with target [t].  Shifting every element by
    [c] and the target by [2 * c] is an instance, negating both another. *)
Theorem find_pair_fmap (f : Z -> Z) (S : list Z) (t t' : Z) :
  (forall x y, f x + f y = t' <-> x + y = t) ->
  find_pair (f <$> S) t' = find_pair S t.
Proof. apply find_pair_fmap_sum. Qed.

Lemma find_pair_fmap_witness :
  (forall x y, (3 + x) + (3 + y) = 15 <-> x + y = 9) /\
  find_pair (Z.add 3 <$> [1; 2; 3; 4; 5]) 15 = find_pair [1; 2; 3; 4; 5] 9.
Proof.
  assert (H : forall x y, (3 + x) + (3 + y) = 15 <-> x + y = 9)
    by (intros x y; lia).
  split; [exact H|].
  exact (find_pair_fmap (Z.add 3) [1; 2; 3; 4; 5] 9 15 H).
Defined.

Corollary find_pair_shift (c : Z) (S : list Z) (t : Z) :
  find_pair (Z.add c <$> S) (t + 2 * c) = find_pair S t.
Proof. apply find_pair_fmap_sum. intros x y. lia. Qed.

Corollary find_pair_opp (S : list Z) (t : Z) :
  find_pair (Z.opp <$> S) (- t) = find_pair S t.
Proof. apply find_pair_fmap_sum. intros x y. lia. Qed.

(** X6.  The store a call leaves behind: the list is untouched, and the
    table is the one of the prefix scanned before the [return] (of the
    whole list when nothing is found).  Its keys are the values of that
    prefix, each bound to the last index holding it, so it never has more
    entries than elements were scanned. *)
Theorem two_sum_final_table (S : list Z) (t : Z) (m0 : gmap Z nat)
    (r : res (option (list nat))) (fr' : TwoSum.frame) :
  two_sum t (TwoSum.Frame S m0) = (r, fr') ->
  arr fr' = S /\
  exists n, (n <= length S)%nat /\
    (r = Ok None /\ n = length S \/ exists a, r = Ok (Some [a; n])) /\
    table_inv S n (hashmap fr') /\
    dom (hashmap fr') = list_to_set (take n S) /\
    (size (hashmap fr') <= n)%nat.
Proof.
  intros E.
  assert (E' : for_in (seq 0 (length S)) (two_sum_body t) (TwoSum.Frame S ∅)
               = (r, fr')) by exact E.
  destruct (for_in_two_sum_table S t (length S) 0 ∅ r fr')
    as (Harr & n & Hn & Hr & Hinv); [lia|apply table_inv_empty|exact E'|].
  split; [exact Harr|]. exists n. split; [lia|]. split; [exact Hr|].
  split; [exact Hinv|]. split.
  - apply table_inv_dom. assumption.
  - eapply table_inv_size. eassumption.
Qed.

Lemma two_sum_final_table_witness :
  let S := [1; 1; 3; 3] in
  let r := Ok (Some [1; 2]%nat) in
  let fr' := TwoSum.Frame S (<[1 := 1%nat]> ∅) in
  two_sum 4 (TwoSum.Frame S ∅) = (r, fr') /\
  (arr fr' = S /\
   exists n, (n <= length S)%nat /\
     (r = Ok None /\ n = length S \/ exists a, r = Ok (Some [a; n])) /\
     table_inv S n (hashmap fr') /\
     dom (hashmap fr') = list_to_set (take n S) /\
     (size (hashmap fr') <= n)%nat).
Proof.
  intros S r fr'.
  split; [vm_compute; reflexivity|].
  apply (two_sum_final_table S 4 ∅ r fr'). vm_compute. reflexivity.
Defined.

(** X7.  A list with fewer than two elements has no answer. *)
Theorem find_pair_short (S : list Z) (t : Z) :
  (length S < 2)%nat -> find_pair S t = Ok None.
Proof.
  intros Hlen. apply find_pair_none_of_no_pair.
  intros a b Hab Hsum.
  destruct (sums_to_lt S t a b Hsum) as [_ Hb]. lia.
Qed.

Lemma find_pair_short_witness :
  (length [7] < 2)%nat /\ find_pair [7] 14 = Ok None.
Proof.
  split; [simpl; lia|]. apply (find_pair_short [7] 14). simpl. lia.
Defined.

(** ** The scratch set of [containsDuplicate] *)

(** [has_duplicate] decides [NoDup]. *)
Lemma has_duplicate_true_iff (S : list Z) :
  has_duplicate S = Ok true <-> ~ NoDup S.
Proof.
  destruct (has_duplicate_spec S) as [[E H]|[E H]]; rewrite E; split;
    auto; try discriminate. intros Hn. destruct (Hn H).
Qed.

Lemma has_duplicate_false_iff (S : list Z) :
  has_duplicate S = Ok false <-> NoDup S.
Proof.
  destruct (has_duplicate_spec S) as [[E H]|[E H]]; rewrite E; split;
    auto; try discriminate. intros Hn. destruct (H Hn).
Qed.

(** Two lists share an element, or they do not. *)
Lemma share_or_disjoint (S T : list Z) :
  (exists x, x ∈ S /\ x ∈ T) \/ (forall x, x ∈ S -> x ∉ T).
Proof.
  induction S as [|y S IH].
  - right. intros x Hx. inversion Hx.
  - destruct (decide (y ∈ T)) as [Hy|Hy].
    + left. exists y. split; [left|assumption].
    + destruct IH as [(x & Hx & HxT)|Hdis].
      * left. exists x. split; [right|]; assumption.
      * right. intros x Hx. apply elem_of_cons in Hx as [->|Hx]; auto.
Qed.

Lemma NoDup_of_size (l : list Z) :
  size (list_to_set l : gset Z) = length l -> NoDup l.
Proof.
  induction l as [|x l IH]; intros Hsize; [constructor|].
  pose proof (size_list_to_set_le l) as Hle.
  rewrite list_to_set_cons in Hsize. simpl in Hsize.
  destruct (decide (x ∈ l)) as [Hin|Hout].
  - replace ({[x]} ∪ list_to_set l : gset Z) with (list_to_set l : gset Z)
      in Hsize; [lia|].
    apply set_eq. intros y.
    rewrite elem_of_union, elem_of_singleton, !elem_of_list_to_set.
    split; [auto|]. intros [->|H]; assumption.
  - rewrite size_union, size_singleton in Hsize.
    + apply NoDup_cons. split; [assumption|]. apply IH. lia.
    + intros y Hy Hy'. apply elem_of_singleton in Hy. subst y.
      apply elem_of_list_to_set in Hy'. contradiction.
Qed.

(** The loop again, entered after the prefix [p] was scanned without a
    repeat, now with the store it leaves behind. *)
Lemma for_in_containsDuplicate_seen (S0 : list Z) (l : list Z) :
  forall (p : list Z) r fr',
  NoDup p ->
  for_in l containsDuplicate_body (ContainsDuplicate.Frame S0 (list_to_set p))
    = (r, fr') ->
  nums fr' = S0 /\
  ((r = Ok None /\ NoDup (p ++ l) /\ seen fr' = list_to_set (p ++ l)) \/
   (r = Ok (Some true) /\
    exists l1 x l2, l = l1 ++ x :: l2 /\ NoDup (p ++ l1) /\ x ∈ p ++ l1 /\
                    seen fr' = list_to_set (p ++ l1))).
Proof.
  induction l as [|n l IH]; intros p r fr' Hp E.
  - injection E as <- <-. split; [reflexivity|]. left.
    rewrite app_nil_r. auto.
  - destruct (decide (n ∈ (list_to_set p : gset Z))) as [Hin|Hout].
    + rewrite (for_in_return _ _ _ _ _ _
                 (containsDuplicate_body_hit S0 _ n Hin)) in E.
      injection E as <- <-. split; [reflexivity|]. right.
      split; [reflexivity|]. exists [], n, l. rewrite app_nil_r.
      apply elem_of_list_to_set in Hin. auto.
    + rewrite (for_in_next _ _ _ _ _
                 (containsDuplicate_body_miss S0 _ n Hout)) in E.
      replace ({[n]} ∪ list_to_set p : gset Z)
        with (list_to_set (p ++ [n]) : gset Z) in E.
      2:{ apply set_eq. intros y.
          rewrite elem_of_union, elem_of_singleton, !elem_of_list_to_set,
            elem_of_app, list_elem_of_singleton. tauto. }
      assert (Hp' : NoDup (p ++ [n])).
      { apply NoDup_app. split; [assumption|]. split; [|apply NoDup_singleton].
        intros y Hy Hyn. apply list_elem_of_singleton in Hyn. subst y.
        apply Hout, elem_of_list_to_set. assumption. }
      destruct (IH (p ++ [n]) r fr' Hp' E)
        as (Hnums & [(Hr & Hnd & Hseen)|(Hr & l1 & x & l2 & Hl & Hnd & Hx & Hseen)]);
        (split; [exact Hnums|]); rewrite <- app_assoc in *; simpl in *.
      * left. auto.
      * right. split; [exact Hr|]. exists (n :: l1), x, l2.
        subst l. auto.
Qed.

(** ** Further properties of [containsDuplicate] *)

(** X8.  The store a call leaves behind.  The list is untouched.  When
    the answer is [True] the scan stopped at the first element [x] that
    repeats an earlier one, and the set holds exactly the elements before
    [x]; when it is [False] the set holds all the elements. *)
Theorem containsDuplicate_final_seen (S : list Z) (s0 : gset Z)
    (r : res bool) (fr' : ContainsDuplicate.frame) :
  containsDuplicate (ContainsDuplicate.Frame S s0) = (r, fr') ->
  nums fr' = S /\
  ((r = Ok false /\ NoDup S /\ seen fr' = list_to_set S) \/
   (r = Ok true /\
    exists l1 x l2, S = l1 ++ x :: l2 /\ NoDup l1 /\ x ∈ l1 /\
                    seen fr' = list_to_set l1)).
Proof.
  intros E.
  cbv [containsDuplicate bind set_new get put ret nums] in E.
  destruct (for_in S containsDuplicate_body (ContainsDuplicate.Frame S ∅))
    as [r0 fr0] eqn:E0.
  destruct (for_in_containsDuplicate_seen S S [] r0 fr0 (NoDup_nil_2 (A:=Z)) E0)
    as (Hnums & [(-> & Hnd & Hseen)|(-> & l1 & x & l2 & Hl & Hnd & Hx & Hseen)]);
    injection E as <- <-; (split; [exact Hnums|]).
  - left. auto.
  - right. split; [reflexivity|]. exists l1, x, l2. auto.
Qed.

Lemma containsDuplicate_final_seen_witness :
  let S := [1; 2; 3; 2; 1] in
  let fr' := ContainsDuplicate.Frame S {[1; 2; 3]} in
  containsDuplicate (ContainsDuplicate.Frame S ∅) = (Ok true, fr') /\
  (nums fr' = S /\
   ((Ok true = Ok false /\ NoDup S /\ seen fr' = list_to_set S) \/
    (Ok true = Ok true /\
     exists l1 x l2, S = l1 ++ x :: l2 /\ NoDup l1 /\ x ∈ l1 /\
                     seen fr' = list_to_set l1))).
Proof.
  intros S fr'.
  split; [vm_compute; reflexivity|].
  apply (containsDuplicate_final_seen S ∅ (Ok true) fr').
  vm_compute. reflexivity.
Defined.

(** X9.  Concatenation: [S ++ T] has a duplicate exactly when [S] has
    one, or [T] has one, or the two lists share a value. *)
Theorem has_duplicate_app (S T : list Z) :
  has_duplicate (S ++ T) = Ok true <->
  has_duplicate S = Ok true \/ has_duplicate T = Ok true \/
  exists x, x ∈ S /\ x ∈ T.
Proof.
  rewrite !has_duplicate_true_iff, NoDup_app. split.
  - intros Hn.
    destruct (decide (NoDup S)) as [HS|HS]; [|auto].
    destruct (decide (NoDup T)) as [HT|HT]; [|auto].
    destruct (share_or_disjoint S T) as [Hshare|Hdis]; [auto|].
    destruct Hn. auto.
  - intros [HS|[HT|(x & HxS & HxT)]] (HS' & Hdis & HT'); auto.
    exact (Hdis x HxS HxT).
Qed.

(** X10.  Removing elements never creates a duplicate: if a subsequence
    of [S'] has one, so has [S']. *)
Theorem has_duplicate_sublist (S S' : list Z) :
  S `sublist_of` S' ->
  has_duplicate S = Ok true -> has_duplicate S' = Ok true.
Proof.
  rewrite !has_duplicate_true_iff. intros Hsub Hn Hnd.
  apply Hn. eapply sublist_NoDup; eassumption.
Qed.

Lemma has_duplicate_sublist_witness :
  [1; 1] `sublist_of` [1; 2; 1] /\
  has_duplicate [1; 1] = Ok true /\
  has_duplicate [1; 2; 1] = Ok true.
Proof.
  assert (H : [1; 1] `sublist_of` [1; 2; 1]).
  { apply sublist_skip, sublist_cons, sublist_skip, sublist_nil. }
  split; [exact H|]. split; [reflexivity|].
  apply (has_duplicate_sublist [1; 1] [1; 2; 1] H). reflexivity.
Defined.

(** X11.  Renaming the values by an injective function does not change
    the answer. *)
Theorem has_duplicate_fmap_inj (f : Z -> Z) (S : list Z) :
  Inj (=) (=) f -> has_duplicate (f <$> S) = has_duplicate S.
Proof.
  intros Hinj.
  destruct (has_duplicate_spec S) as [[E H]|[E H]]; rewrite E.
  - apply has_duplicate_true_iff. intros Hn. apply H.
    eapply NoDup_fmap_1. eassumption.
  - apply has_duplicate_false_iff. apply NoDup_fmap_2; assumption.
Qed.

Lemma has_duplicate_fmap_inj_witness :
  Inj (=) (=) (Z.add 3) /\
  has_duplicate (Z.add 3 <$> [1; 2; 1]) = has_duplicate [1; 2; 1].
Proof.
  assert (H : Inj (=) (=) (Z.add 3)) by (intros x y Hxy; lia).
  split; [exact H|].
  exact (has_duplicate_fmap_inj (Z.add 3) [1; 2; 1] H).
Defined.

(** X12.  Mapping any function over a list with a duplicate gives a list
    with a duplicate. *)
Theorem has_duplicate_fmap (f : Z -> Z) (S : list Z) :
  has_duplicate S = Ok true -> has_duplicate (f <$> S) = Ok true.
Proof.
  rewrite !has_duplicate_true_iff. intros Hn Hnd.
  apply Hn. eapply NoDup_fmap_1. eassumption.
Qed.

Lemma has_duplicate_fmap_witness :
  has_duplicate [1; 2; 1] = Ok true /\
  has_duplicate (Z.abs <$> [1; 2; 1]) = Ok true.
Proof.
  split; [reflexivity|].
  apply (has_duplicate_fmap Z.abs [1; 2; 1]). reflexivity.
Defined.

(** X13.  The answer agrees with comparing the number of distinct values
    with the length, [len(set(nums)) != len(nums)]. *)
Theorem has_duplicate_size (S : list Z) :
  has_duplicate S
  = Ok (negb (size (list_to_set S : gset Z) =? length S)%nat).
Proof.
  destruct (has_duplicate_spec S) as [[E H]|[E H]]; rewrite E; f_equal.
  - destruct (Nat.eqb_spec (size (list_to_set S : gset Z)) (length S))
      as [Heq|Hne]; [|reflexivity].
    destruct H. apply NoDup_of_size. assumption.
  - rewrite size_list_to_set by assumption.
    rewrite Nat.eqb_refl. reflexivity.
Qed.

(** X14.  Pigeonhole: a list of more than [n >= 0] integers that all lie
    in [lo, lo + n) has a duplicate. *)
Theorem has_duplicate_pigeonhole (S : list Z) (lo n : Z) :
  0 <= n ->
  (forall x, x ∈ S -> lo <= x < lo + n) ->
  n < Z.of_nat (length S) ->
  has_duplicate S = Ok true.
Proof.
  intros Hn Hrange Hlen. apply has_duplicate_true_iff. intros Hnd.
  assert (Hsub : S ⊆+ seqZ lo n).
  { apply NoDup_submseteq; [assumption|].
    intros x Hx. apply elem_of_seqZ. auto. }
  apply submseteq_length in Hsub. rewrite length_seqZ in Hsub. lia.
Qed.

Lemma has_duplicate_pigeonhole_witness :
  0 <= 3 /\
  (forall x, x ∈ [3; 1; 3; 2] -> 1 <= x < 1 + 3) /\
  3 < Z.of_nat (length [3; 1; 3; 2]) /\
  has_duplicate [3; 1; 3; 2] = Ok true.
Proof.
  assert (H : forall x, x ∈ [3; 1; 3; 2] -> 1 <= x < 1 + 3).
  { intros x Hx. repeat (apply elem_of_cons in Hx as [->|Hx]; [lia|]).
    inversion Hx. }
  assert (H' : 3 < Z.of_nat (length [3; 1; 3; 2])) by (simpl; lia).
  assert (H0 : 0 <= 3) by lia.
  split; [exact H0|]. split; [exact H|]. split; [exact H'|].
  exact (has_duplicate_pigeonhole [3; 1; 3; 2] 1 3 H0 H H').
Defined.

(** ** Whether [two_sum] finds a pair, under reordering and deletion *)

(** A subsequence sits in the list along an increasing map of positions. *)
Lemma sublist_positions (S S' : list Z) :
  S `sublist_of` S' ->
  exists f : nat -> nat,
    (forall a b, (a < b)%nat -> (f a < f b)%nat) /\
    (forall i x, S !! i = Some x -> S' !! f i = Some x).
Proof.
  induction 1 as [|x l1 l2 _ (f & Hmono & Hf)|x l1 l2 _ (f & Hmono & Hf)].
  - exists (fun i => i). auto.
  - exists (fun i => match i with O => O | Datatypes.S i' => Datatypes.S (f i') end).
    split.
    + intros [|a] [|b] Hab; try lia.
      assert (f a < f b)%nat by (apply Hmono; lia). lia.
    + intros [|i] y Hy; simpl in *; auto.
  - exists (fun i => Datatypes.S (f i)). split.
    + intros a b Hab. assert (f a < f b)%nat by (apply Hmono; lia). lia.
    + intros i y Hy. simpl. auto.
Qed.

(** X15.  Whether a pair is found does not depend on the order of the
    list: a permutation of a list without answer has no answer (the
    indices returned do depend on the order). *)
Theorem find_pair_none_permutation (S S' : list Z) (t : Z) :
  S ≡ₚ S' -> find_pair S t = Ok None -> find_pair S' t = Ok None.
Proof.
  intros Hperm E.
  symmetry in Hperm.
  apply Permutation_inj in Hperm as (_ & f & Hinj & Hf).
  apply find_pair_none_of_no_pair.
  intros a b Hab (x & y & Ha & Hb & Hxy).
  assert (Hne : f a <> f b) by (intros Heq; apply Hinj in Heq; lia).
  assert (Hsum : sums_to S t (f a) (f b)).
  { exists x, y. rewrite <- !Hf. auto. }
  destruct (find_pair_spec S t) as [[_ Hno]|(a' & b' & E' & _)];
    [|rewrite E' in E; discriminate].
  destruct (sums_to_lt S t _ _ Hsum) as [Hfa Hfb].
  destruct (Nat.lt_total (f a) (f b)) as [H|[H|H]]; [|contradiction|].
  - destruct (Hno (f a) (f b)); [lia|assumption].
  - destruct (Hno (f b) (f a)); [lia|apply sums_to_sym; assumption].
Qed.

Lemma find_pair_none_permutation_witness :
  [1; 2; 4] ≡ₚ [2; 1; 4] /\
  find_pair [1; 2; 4] 8 = Ok None /\
  find_pair [2; 1; 4] 8 = Ok None.
Proof.
  assert (H : [1; 2; 4] ≡ₚ [2; 1; 4]) by apply perm_swap.
  split; [exact H|]. split; [reflexivity|].
  apply (find_pair_none_permutation [1; 2; 4] [2; 1; 4] 8 H). reflexivity.
Defined.

(** The indices do depend on the order: two orders of the same values. *)
Example find_pair_order :
  find_pair [1; 3; 2; 2] 4 = Ok (Some [0; 1]%nat) /\
  find_pair [2; 1; 3; 2] 4 = Ok (Some [1; 2]%nat).
Proof. split; reflexivity. Qed.

(** X16.  Deleting elements never creates an answer: when the list has
    none, no subsequence of it (prefix, suffix, or any selection kept in
    order) has one. *)
Theorem find_pair_none_sublist (S S' : list Z) (t : Z) :
  S `sublist_of` S' -> find_pair S' t = Ok None -> find_pair S t = Ok None.
Proof.
  intros Hsub E.
  destruct (sublist_positions S S' Hsub) as (f & Hmono & Hf).
  apply find_pair_none_of_no_pair.
  intros a b Hab (x & y & Ha & Hb & Hxy).
  destruct (find_pair_spec S' t) as [[_ Hno]|(a' & b' & E' & _)];
    [|rewrite E' in E; discriminate].
  apply (Hno (f a) (f b)).
  - split; [apply Hmono; assumption|].
    eapply lookup_lt_Some. apply Hf. eassumption.
  - exists x, y. auto.
Qed.

Lemma find_pair_none_sublist_witness :
  [1; 4] `sublist_of` [1; 2; 4] /\
  find_pair [1; 2; 4] 8 = Ok None /\
  find_pair [1; 4] 8 = Ok None.
Proof.
  assert (H : [1; 4] `sublist_of` [1; 2; 4]).
  { apply sublist_skip, sublist_cons, sublist_skip, sublist_nil. }
  split; [exact H|]. split; [reflexivity|].
  apply (find_pair_none_sublist [1; 4] [1; 2; 4] 8 H). reflexivity.
Defined.
